(** * Pomodoro timer (src/App.tsx): the timer/mode state machine

    The component [App] keeps four [useState] cells ([mode], [timeLeft],
    [isRunning], [completedPomodoros]), one [useRef] cell ([intervalRef])
    and one [useEffect] whose dependency array is
    [[isRunning, timeLeft, mode]].  The effect talks to the browser through
    [window.setInterval] and [clearInterval].

    The embedding keeps all of this explicit: the record [App] holds the
    hook cells, the browser's table of live intervals and the dependency
    values of the last effect that was committed; [commit] is React's
    render/commit loop for this component (run the previous cleanup and
    the effect body whenever a dependency changed, repeat while the effect
    itself changed the state).

    [timeLeft] and [completedPomodoros] are JavaScript numbers that only
    ever hold integers; they are [Z] here.  [progress], the one place where
    the program divides, is computed in binary64. *)

From Stdlib Require Import ZArith String Ascii List Bool Lia QArith Qabs.
From Stdlib Require Import DecimalString Floats Uint63.
From stdpp Require Import base decidable option gmap.

Local Open Scope Z_scope.

(** ** Data model *)

(** [type TimerMode = 'focus' | 'shortBreak' | 'longBreak'] *)
Inductive TimerMode : Type :=
| focus
| shortBreak
| longBreak.

#[global] Instance TimerMode_eq_dec : EqDecision TimerMode.
Proof. solve_decision. Defined.

(** [const TIMER_DURATIONS: TimerConfig], indexed by the mode. *)
Definition TIMER_DURATIONS (m : TimerMode) : Z :=
  match m with
  | focus => 25 * 60
  | shortBreak => 5 * 60
  | longBreak => 15 * 60
  end.

(** The values of the dependency array [[isRunning, timeLeft, mode]]. *)
Definition Deps : Type := bool * Z * TimerMode.

(** The component instance together with the part of the browser it uses.
    [timers] is the set of interval handles that are live in the window
    (every one of them carries the same callback,
    [() => setTimeLeft(prev => prev - 1)]); [nextTimerId] is the handle
    the next [setInterval] returns (handles are positive, hence truthy);
    [effectDeps] is [None] while no effect has been committed yet. *)
Record App : Type := mkApp {
  mode : TimerMode;
  timeLeft : Z;
  isRunning : bool;
  completedPomodoros : Z;
  intervalRef : option positive;
  timers : gset positive;
  nextTimerId : positive;
  effectDeps : option Deps
}.

Definition depsOf (c : App) : Deps := (isRunning c, timeLeft c, mode c).

(** State setters. *)
Definition setMode (m : TimerMode) (c : App) : App :=
  mkApp m (timeLeft c) (isRunning c) (completedPomodoros c)
        (intervalRef c) (timers c) (nextTimerId c) (effectDeps c).

Definition setTimeLeft (t : Z) (c : App) : App :=
  mkApp (mode c) t (isRunning c) (completedPomodoros c)
        (intervalRef c) (timers c) (nextTimerId c) (effectDeps c).

Definition setIsRunning (b : bool) (c : App) : App :=
  mkApp (mode c) (timeLeft c) b (completedPomodoros c)
        (intervalRef c) (timers c) (nextTimerId c) (effectDeps c).

Definition setCompletedPomodoros (n : Z) (c : App) : App :=
  mkApp (mode c) (timeLeft c) (isRunning c) n
        (intervalRef c) (timers c) (nextTimerId c) (effectDeps c).

Definition setEffectDeps (d : option Deps) (c : App) : App :=
  mkApp (mode c) (timeLeft c) (isRunning c) (completedPomodoros c)
        (intervalRef c) (timers c) (nextTimerId c) d.

(** ** The browser's interval table *)

(** [intervalRef.current = window.setInterval(..., 1000)] *)
Definition setInterval (c : App) : App :=
  let id := nextTimerId c in
  mkApp (mode c) (timeLeft c) (isRunning c) (completedPomodoros c)
        (Some id) ({[ id ]} ∪ timers c) (Pos.succ id) (effectDeps c).

(** [clearInterval(id)]: clearing a handle that is not live does nothing. *)
Definition clearInterval (id : positive) (c : App) : App :=
  mkApp (mode c) (timeLeft c) (isRunning c) (completedPomodoros c)
        (intervalRef c) (timers c ∖ {[ id ]}) (nextTimerId c) (effectDeps c).

(** ** The effect *)

(** The function the effect returns:
    [if (intervalRef.current) clearInterval(intervalRef.current)]. *)
Definition cleanup (c : App) : App :=
  match intervalRef c with
  | Some id => clearInterval id c
  | None => c
  end.

(** The effect body. *)
Definition effect (c : App) : App :=
  if isRunning c && (0 <? timeLeft c) then
    setInterval c
  else if timeLeft c =? 0 then
    let c1 := setIsRunning false c in
    match mode c with
    | focus => setCompletedPomodoros (completedPomodoros c1 + 1) c1
    | _ => c1
    end
  else c.

(** The state the previous cleanup leaves behind; there is no previous
    cleanup before the first commit. *)
Definition cleaned (c : App) : App :=
  match effectDeps c with
  | Some _ => cleanup c
  | None => c
  end.

(** One commit in which a dependency differs from the one recorded by the
    last committed effect: the previous cleanup runs, then the effect body;
    the dependencies of this render are recorded. *)
Definition runEffect (c : App) : App :=
  setEffectDeps (Some (depsOf c)) (effect (cleaned c)).

(** The render/commit loop.  State changes made by the effect schedule
    another render; React gives up after [NESTED_UPDATE_LIMIT] nested
    updates ("Maximum update depth exceeded"), which is [None] here. *)
Fixpoint commit (fuel : nat) (c : App) : option App :=
  if decide (effectDeps c = Some (depsOf c)) then Some c
  else match fuel with
       | O => None
       | S k => commit k (runEffect c)
       end.

Definition NESTED_UPDATE_LIMIT : nat := 50.

Definition render (c : App) : option App := commit NESTED_UPDATE_LIMIT c.

(** ** Mounting and the event handlers *)

(** The [useState]/[useRef] initial values, in a window without timers. *)
Definition initialApp : App :=
  mkApp focus (TIMER_DURATIONS focus) false 0 None ∅ 1%positive None.

Definition mount : option App := render initialApp.

(** [handleModeChange(newMode)] *)
Definition handleModeChange (newMode : TimerMode) (c : App) : option App :=
  render (setIsRunning false
            (setTimeLeft (TIMER_DURATIONS newMode) (setMode newMode c))).

(** [toggleTimer()] *)
Definition toggleTimer (c : App) : option App :=
  render (setIsRunning (negb (isRunning c)) c).

(** [resetTimer()] *)
Definition resetTimer (c : App) : option App :=
  render (setIsRunning false (setTimeLeft (TIMER_DURATIONS (mode c)) c)).

(** The callback of the interval [id] fires: a cleared interval never
    fires, a live one runs [setTimeLeft(prev => prev - 1)]. *)
Definition fire (id : positive) (c : App) : option App :=
  if decide (id ∈ timers c) then render (setTimeLeft (timeLeft c - 1) c)
  else Some c.

(** One second elapses: every interval that is live at that moment comes
    due.  The render that a callback schedules is finished before the next
    second is over. *)
Definition tick (c : App) : option App :=
  foldl (fun r id => r ≫= fire id) (Some c) (elements (timers c)).

(** The component is torn down: the last cleanup runs. *)
Definition unmount (c : App) : App := setEffectDeps None (cleaned c).

(** [n] seconds elapse. *)
Fixpoint ticks (n : nat) (c : App) : option App :=
  match n with
  | O => Some c
  | S k => tick c ≫= ticks k
  end.

(** The user-visible operations and the states the component can be in
    between two events. *)
Inductive Event : Type :=
| SelectMode (m : TimerMode)
| ToggleRunning
| Reset
| Tick.

Definition step (e : Event) (c : App) : option App :=
  match e with
  | SelectMode m => handleModeChange m c
  | ToggleRunning => toggleTimer c
  | Reset => resetTimer c
  | Tick => tick c
  end.

Inductive reachable : App -> Prop :=
| reachable_mount c : mount = Some c -> reachable c
| reachable_step e c c' : reachable c -> step e c = Some c' -> reachable c'.

(** A run of events from the mounted component. *)
Fixpoint steps (es : list Event) (c : App) : option App :=
  match es with
  | [] => Some c
  | e :: es' => step e c ≫= steps es'
  end.

Definition run (es : list Event) : option App := mount ≫= steps es.

(** Scenario A: mount, start, let 1500 seconds pass. *)
Definition scenarioA : option App :=
  run (ToggleRunning :: repeat Tick 1500).

(** Three states such runs end in: [run [ToggleRunning]] (Focus just
    started), [scenarioA] (a Focus interval run down to zero) and
    [run [SelectMode shortBreak; ToggleRunning]] (a Short Break just
    started). *)
Definition runningFocus : App :=
  mkApp focus 1500 true 0 (Some 1%positive) {[ 1%positive ]} 2%positive
        (Some (true, 1500, focus)).

Definition finishedFocus : App :=
  mkApp focus 0 false 2 (Some 1500%positive) ∅ 1501%positive
        (Some (false, 0, focus)).

Definition runningShortBreak : App :=
  mkApp shortBreak 300 true 0 (Some 1%positive) {[ 1%positive ]} 2%positive
        (Some (true, 300, shortBreak)).

(** What an observer reads off the component. *)
Definition snapshot (c : App) : TimerMode * Z * bool * Z :=
  (mode c, timeLeft c, isRunning c, completedPomodoros c).

(** ** Derived values of a render *)

(** [const totalTime = TIMER_DURATIONS[mode]] *)
Definition totalTime (c : App) : Z := TIMER_DURATIONS (mode c).

(** The binary64 number that holds the integer [z] (exact below 2^53). *)
Definition number (z : Z) : float :=
  if z <? 0 then (- of_uint63 (Uint63.of_Z (- z)))%float
  else of_uint63 (Uint63.of_Z z).

(** [const progress = 1 - timeLeft / totalTime], in binary64 arithmetic as
    the program computes it. *)
Definition progress (c : App) : float :=
  (1 - number (timeLeft c) / number (totalTime c))%float.

(** The same expression over the rationals. *)
Definition progressExact (c : App) : Q :=
  (1 - inject_Z (timeLeft c) / inject_Z (totalTime c))%Q.

(** The rational a finite binary64 number denotes. *)
Definition floatQ (x : float) : Q :=
  match Prim2SF x with
  | S754_finite s m e =>
      (inject_Z (if s then Z.neg m else Z.pos m) * Qpower 2 e)%Q
  | _ => 0%Q
  end.

(** ** [formatTime] *)

(** [n.toString()] for an integer [n]. *)
Definition toString (n : Z) : string := NilZero.string_of_int (Z.to_int n).

(** The first [n] characters of [rest] followed by [pad] repeated. *)
Fixpoint filler (n : nat) (pad rest : string) : string :=
  match n with
  | O => EmptyString
  | S k =>
      match rest with
      | String a r => String a (filler k pad r)
      | EmptyString =>
          match pad with
          | String a r => String a (filler k pad r)
          | EmptyString => EmptyString
          end
      end
  end.

(** [s.padStart(targetLength, padString)] *)
Definition padStart (targetLength : nat) (padString s : string) : string :=
  if (String.length s <? targetLength)%nat
  then filler (targetLength - String.length s) padString padString ++ s
  else s.

(** [formatTime(seconds)]: [Math.floor(seconds / 60)] is the floor
    quotient, [%] the remainder that takes the sign of the dividend. *)
Definition formatTime (seconds : Z) : string :=
  let mins := seconds / 60 in
  let secs := Z.rem seconds 60 in
  (padStart 2 "0" (toString mins) ++ ":" ++ padStart 2 "0" (toString secs))%string.

(** The decimal digit [d] as a character, and the two-digit zero-padded
    rendering of a number below 100, as the specification words it. *)
Definition digitChar (d : Z) : ascii := ascii_of_nat (48 + Z.to_nat d).

Definition twoDigits (n : Z) : string :=
  String (digitChar (n / 10)) (String (digitChar (n mod 10)) EmptyString).

Definition MMSS (seconds : Z) : string :=
  (twoDigits (seconds / 60) ++ ":" ++ twoDigits (seconds mod 60))%string.

(** [check n P]: [P] holds of every integer from 0 to [n]. *)
Fixpoint check (n : nat) (P : Z -> bool) : bool :=
  match n with
  | O => P 0
  | S k => P (Z.of_nat n) && check k P
  end.

(** What has to hold of [progress] at [timeLeft = t] in mode [m]. *)
Definition progressOk (m : TimerMode) (t : Z) : bool :=
  let c := setTimeLeft t (setMode m initialApp) in
  (0 <=? progress c)%float && (progress c <=? 1)%float &&
  Qle_bool 0 (progressExact c) && Qle_bool (progressExact c) 1 &&
  Qle_bool (Qabs (floatQ (progress c) - progressExact c)) (Qpower 2 (-53)).

(** ** The rendered view *)

(** [const MODE_LABELS: Record<TimerMode, string>] *)
Definition MODE_LABELS (m : TimerMode) : string :=
  match m with
  | focus => "Focus"
  | shortBreak => "Short Break"
  | longBreak => "Long Break"
  end.

(** The SVG circle calculations; [PI] is [Math.PI], the binary64 number
    nearest to pi. *)
Module Svg.

Definition size : float := 320.

Definition strokeWidth : float := 6.

Definition radius : float := ((size - strokeWidth) / 2)%float.

Definition PI : float := 0x1.921fb54442d18p+1.

Definition circumference : float := (2 * PI * radius)%float.

Definition strokeDashoffset (c : App) : float :=
  (circumference * (1 - progress c))%float.

End Svg.


(** The text of the start/pause button: [isRunning ? 'Pause' : 'Start']. *)
Definition toggleLabel (c : App) : string :=
  if isRunning c then "Pause" else "Start".

(** The mode selector: one button per mode, with its label and whether it
    is drawn as the selected one ([mode === m]); clicking the button of
    [m] calls [handleModeChange(m)]. *)
Definition modeButtons (c : App) : list (string * bool) :=
  map (fun m => (MODE_LABELS m, bool_decide (mode c = m)))
      [focus; shortBreak; longBreak].


(** Reading a five-character clock back: minutes times 60 plus seconds.
    Only used to tell displayed times apart. *)
Definition digitValue (a : ascii) : Z := Z.of_nat (nat_of_ascii a) - 48.

Definition clockValue (s : string) : Z :=
  match s with
  | String m1 (String m0 (String _ (String s1 (String s0 EmptyString)))) =>
      60 * (10 * digitValue m1 + digitValue m0) +
      (10 * digitValue s1 + digitValue s0)
  | _ => -1
  end.

(** What has to hold of [Svg.strokeDashoffset] at [timeLeft = t] in mode
    [m]: it lies between 0 and the circumference, and it is below the
    offset one second earlier. *)
Definition offsetOk (m : TimerMode) (t : Z) : bool :=
  let c := setTimeLeft t (setMode m initialApp) in
  (0 <=? Svg.strokeDashoffset c)%float &&
  (Svg.strokeDashoffset c <=? Svg.circumference)%float &&
  ((t =? TIMER_DURATIONS m) ||
   (Svg.strokeDashoffset c <? Svg.strokeDashoffset (setTimeLeft (t + 1) c))%float).

(** ** The render/commit loop in closed form *)

(** A running timer that has reached zero: the one situation in which the
    effect changes one of its own dependencies. *)
Definition expired (c : App) : Prop := timeLeft c = 0 /\ isRunning c = true.

#[global] Instance expired_dec c : Decision (expired c).
Proof. unfold expired. apply _. Defined.

(** What [commit] computes, given enough fuel. *)
Definition settle (c : App) : App :=
  if decide (effectDeps c = Some (depsOf c)) then c
  else if decide (expired c) then runEffect (runEffect c)
  else runEffect c.

(** What one run of the effect adds to [completedPomodoros]. *)
Definition bonus (c : App) : Z :=
  if timeLeft c =? 0 then
    match mode c with
    | focus => 1
    | _ => 0
    end
  else 0.

(** What a timer that runs down to zero adds to it. *)
Definition focusBonus (m : TimerMode) : Z :=
  match m with
  | focus => 1
  | _ => 0
  end.

(** What an event adds to [completedPomodoros]: only the tick that takes a
    running timer from 1 to 0 and a [toggleTimer()] at 0 add anything, and
    only in Focus mode. *)
Definition counted (e : Event) (c : App) : Z :=
  match e with
  | Tick =>
      if isRunning c && (timeLeft c =? 1) then 2 * focusBonus (mode c) else 0
  | ToggleRunning =>
      if timeLeft c =? 0 then 2 * focusBonus (mode c) else 0
  | _ => 0
  end.

(** ** Invariants *)

(** At most the interval named by [intervalRef] is live. *)
Definition refOk (c : App) : Prop :=
  timers c = ∅ \/ exists id, intervalRef c = Some id /\ timers c = {[ id ]}.

(** An interval is live exactly while the timer runs with time left, and
    then it is the one [intervalRef] names. *)
Definition timersOk (c : App) : Prop :=
  if isRunning c && (0 <? timeLeft c)
  then exists id, intervalRef c = Some id /\ timers c = {[ id ]}
  else timers c = ∅.

(** The states between two events. *)
Record Inv (c : App) : Prop := mkInv {
  inv_deps : effectDeps c = Some (depsOf c);
  inv_timers : timersOk c;
  inv_time : 0 <= timeLeft c <= TIMER_DURATIONS (mode c);
  inv_stopped : timeLeft c = 0 -> isRunning c = false;
  inv_counter : 0 <= completedPomodoros c
}.

(** * Properties *)

(** ** The render/commit loop *)

Lemma commit_stable k c :
  effectDeps c = Some (depsOf c) -> commit k c = Some c.
Proof. intros H. destruct k; simpl; rewrite decide_True; auto. Qed.

Lemma commit_changed k c :
  effectDeps c <> Some (depsOf c) -> commit (S k) c = commit k (runEffect c).
Proof. intros H. simpl. rewrite decide_False; auto. Qed.

Lemma runEffect_deps c : effectDeps (runEffect c) = Some (depsOf c).
Proof. reflexivity. Qed.

Lemma effect_mode c : mode (effect c) = mode c.
Proof.
  destruct c as [m t r n ref ts nx d]; unfold effect; simpl.
  destruct (r && (0 <? t)); [reflexivity|].
  destruct (t =? 0); [|reflexivity].
  destruct m; reflexivity.
Qed.

Lemma effect_timeLeft c : timeLeft (effect c) = timeLeft c.
Proof.
  destruct c as [m t r n ref ts nx d]; unfold effect; simpl.
  destruct (r && (0 <? t)); [reflexivity|].
  destruct (t =? 0); [|reflexivity].
  destruct m; reflexivity.
Qed.

Lemma effect_isRunning c :
  isRunning (effect c) = isRunning c && negb (timeLeft c =? 0).
Proof.
  destruct c as [m t r n ref ts nx d]; unfold effect; simpl.
  destruct r, (Z.ltb_spec 0 t) as [L|L], (Z.eqb_spec t 0) as [E|E];
    simpl; try lia; try reflexivity; destruct m; reflexivity.
Qed.

Lemma cleanup_hooks c :
  mode (cleanup c) = mode c /\ timeLeft (cleanup c) = timeLeft c /\
  isRunning (cleanup c) = isRunning c /\
  completedPomodoros (cleanup c) = completedPomodoros c /\
  intervalRef (cleanup c) = intervalRef c /\
  effectDeps (cleanup c) = effectDeps c.
Proof.
  unfold cleanup. destruct (intervalRef c) eqn:E; simpl; rewrite ?E;
    repeat apply conj; reflexivity.
Qed.

Lemma cleaned_hooks c :
  mode (cleaned c) = mode c /\ timeLeft (cleaned c) = timeLeft c /\
  isRunning (cleaned c) = isRunning c /\
  completedPomodoros (cleaned c) = completedPomodoros c /\
  intervalRef (cleaned c) = intervalRef c.
Proof.
  unfold cleaned. destruct (effectDeps c); [|repeat apply conj; reflexivity].
  destruct (cleanup_hooks c) as (? & ? & ? & ? & ? & ?).
  repeat apply conj; assumption.
Qed.

Lemma runEffect_mode c : mode (runEffect c) = mode c.
Proof.
  unfold runEffect. simpl.
  rewrite effect_mode. apply cleaned_hooks.
Qed.

Lemma runEffect_timeLeft c : timeLeft (runEffect c) = timeLeft c.
Proof.
  unfold runEffect. simpl.
  rewrite effect_timeLeft. apply cleaned_hooks.
Qed.

Lemma runEffect_isRunning c :
  isRunning (runEffect c) = isRunning c && negb (timeLeft c =? 0).
Proof.
  unfold runEffect. simpl.
  rewrite effect_isRunning.
  destruct (cleaned_hooks c) as (_ & -> & -> & _). reflexivity.
Qed.

(** After at most two runs of the effect nothing is left to do: the second
    run happens exactly when the first one stopped a running timer at
    zero. *)
Lemma runEffect_settles c :
  ~ (timeLeft c = 0 /\ isRunning c = true) ->
  effectDeps (runEffect c) = Some (depsOf (runEffect c)).
Proof.
  intros H. rewrite runEffect_deps. unfold depsOf.
  rewrite runEffect_mode, runEffect_timeLeft, runEffect_isRunning.
  destruct (isRunning c), (Z.eqb_spec (timeLeft c) 0); simpl; auto.
  exfalso; auto.
Qed.

Lemma runEffect_unsettled c :
  timeLeft c = 0 -> isRunning c = true ->
  effectDeps (runEffect c) <> Some (depsOf (runEffect c)) /\
  timeLeft (runEffect c) = 0 /\ isRunning (runEffect c) = false.
Proof.
  intros T R. rewrite runEffect_deps. unfold depsOf.
  rewrite runEffect_mode, runEffect_timeLeft, runEffect_isRunning, R, T.
  simpl. repeat split. congruence.
Qed.

Lemma commit_settle k c : commit (S (S k)) c = Some (settle c).
Proof.
  unfold settle. destruct (decide (effectDeps c = Some (depsOf c))) as [E|E].
  - apply commit_stable; exact E.
  - rewrite commit_changed by exact E.
    destruct (decide (expired c)) as [[T R]|X].
    + destruct (runEffect_unsettled c T R) as (E1 & T1 & R1).
      rewrite commit_changed by exact E1.
      apply commit_stable, runEffect_settles. rewrite R1. intros [_ ?]; discriminate.
    + apply commit_stable, runEffect_settles. exact X.
Qed.

Lemma render_settle c : render c = Some (settle c).
Proof. apply commit_settle. Qed.

Lemma settle_deps c : effectDeps (settle c) = Some (depsOf (settle c)).
Proof.
  unfold settle.
  destruct (decide (effectDeps c = Some (depsOf c))) as [E|E]; [exact E|].
  destruct (decide (expired c)) as [[T R]|X].
  - destruct (runEffect_unsettled c T R) as (_ & T1 & R1).
    apply runEffect_settles. rewrite R1. intros [_ ?]; discriminate.
  - apply runEffect_settles. exact X.
Qed.

Lemma settle_mode c : mode (settle c) = mode c.
Proof.
  unfold settle. repeat case_decide; rewrite ?runEffect_mode; reflexivity.
Qed.

Lemma settle_timeLeft c : timeLeft (settle c) = timeLeft c.
Proof.
  unfold settle. repeat case_decide; rewrite ?runEffect_timeLeft; reflexivity.
Qed.

Lemma settle_isRunning c :
  effectDeps c <> Some (depsOf c) ->
  isRunning (settle c) = isRunning c && negb (timeLeft c =? 0).
Proof.
  intros E. unfold settle. rewrite decide_False by exact E.
  destruct (decide (expired c)) as [[T R]|X].
  - rewrite !runEffect_isRunning, runEffect_timeLeft, T, R. reflexivity.
  - apply runEffect_isRunning.
Qed.

(** ** The counter *)

Lemma effect_counter c :
  completedPomodoros (effect c) = completedPomodoros c + bonus c.
Proof.
  destruct c as [m t r n ref ts nx d]; unfold effect, bonus; simpl.
  destruct r, (Z.ltb_spec 0 t) as [L|L], (Z.eqb_spec t 0) as [E|E];
    simpl; try lia; destruct m; simpl; lia.
Qed.

Lemma runEffect_counter c :
  completedPomodoros (runEffect c) = completedPomodoros c + bonus c.
Proof.
  unfold runEffect. simpl. rewrite effect_counter.
  unfold bonus. destruct (cleaned_hooks c) as (-> & -> & _ & -> & _).
  reflexivity.
Qed.

Lemma bonus_runEffect c : bonus (runEffect c) = bonus c.
Proof. unfold bonus. rewrite runEffect_timeLeft, runEffect_mode. reflexivity. Qed.

Lemma settle_counter c :
  completedPomodoros (settle c) =
  completedPomodoros c +
  (if decide (effectDeps c = Some (depsOf c)) then 0
   else if decide (expired c) then 2 * bonus c
   else bonus c).
Proof.
  unfold settle. repeat case_decide;
    rewrite ?runEffect_counter, ?bonus_runEffect; lia.
Qed.

Lemma bonus_range c : 0 <= bonus c <= 1.
Proof.
  unfold bonus. destruct (timeLeft c =? 0); [destruct (mode c)|]; lia.
Qed.

Lemma settle_counter_mono c :
  completedPomodoros c <= completedPomodoros (settle c).
Proof.
  rewrite settle_counter. pose proof (bonus_range c).
  repeat case_decide; lia.
Qed.

(** ** The interval table *)

Lemma timersOk_refOk c : timersOk c -> refOk c.
Proof.
  unfold timersOk, refOk.
  destruct (isRunning c && (0 <? timeLeft c)); [right | left]; assumption.
Qed.

Lemma cleanup_timers c : refOk c -> timers (cleanup c) = ∅.
Proof.
  unfold cleanup. intros [E | (id & R & E)].
  - destruct (intervalRef c); simpl; rewrite E;
      [apply empty_difference_L | reflexivity].
  - rewrite R. simpl. rewrite E. apply difference_diag_L.
Qed.

Lemma cleaned_timers c :
  refOk c -> (effectDeps c = None -> timers c = ∅) -> timers (cleaned c) = ∅.
Proof.
  intros H N. unfold cleaned. destruct (effectDeps c).
  - apply cleanup_timers, H.
  - apply N. reflexivity.
Qed.

Lemma effect_timersOk c : timers c = ∅ -> timersOk (effect c).
Proof.
  destruct c as [m t r n ref ts nx d]; simpl; intros ->.
  unfold timersOk, effect; simpl.
  destruct r, (Z.ltb_spec 0 t) as [L|L], (Z.eqb_spec t 0) as [E|E];
    simpl; try lia;
    repeat match goal with
           | |- context [match ?x with focus => _ | _ => _ end] => destruct x
           end; simpl;
    repeat match goal with
           | |- context [0 <? ?x] => destruct (Z.ltb_spec 0 x); try lia
           end;
    try reflexivity.
  eexists; split; [reflexivity | apply union_empty_r_L].
Qed.

Lemma runEffect_timersOk c :
  refOk c -> (effectDeps c = None -> timers c = ∅) -> timersOk (runEffect c).
Proof.
  intros H N. pose proof (effect_timersOk _ (cleaned_timers c H N)) as K.
  unfold runEffect.
  unfold timersOk in *. exact K.
Qed.

Lemma settle_timersOk c :
  refOk c -> (effectDeps c = None -> timers c = ∅) ->
  (effectDeps c = Some (depsOf c) -> timersOk c) ->
  timersOk (settle c).
Proof.
  intros H N S. unfold settle.
  destruct (decide (effectDeps c = Some (depsOf c))) as [E|E]; [auto|].
  pose proof (runEffect_timersOk c H N) as K.
  destruct (decide (expired c)); [|exact K].
  apply runEffect_timersOk; [apply timersOk_refOk, K|].
  rewrite runEffect_deps. discriminate.
Qed.

(** ** The invariant is kept by every event *)

Lemma settle_Inv c :
  refOk c ->
  (effectDeps c = None -> timers c = ∅) ->
  (effectDeps c = Some (depsOf c) ->
   timersOk c /\ (timeLeft c = 0 -> isRunning c = false)) ->
  0 <= timeLeft c <= TIMER_DURATIONS (mode c) ->
  0 <= completedPomodoros c ->
  Inv (settle c).
Proof.
  intros HR HN HS HT HC. constructor.
  - apply settle_deps.
  - apply settle_timersOk; auto. intros E. apply HS, E.
  - rewrite settle_timeLeft, settle_mode. exact HT.
  - destruct (decide (effectDeps c = Some (depsOf c))) as [E|E].
    + unfold settle. rewrite decide_True by exact E. apply HS, E.
    + rewrite settle_isRunning, settle_timeLeft by exact E.
      intros ->. apply andb_false_r.
  - pose proof (settle_counter_mono c). lia.
Qed.

(** An event handler only writes hook cells; the interval table, the ref
    and the recorded dependencies are those of the state it started in. *)
Lemma settle_Inv_from c0 c :
  Inv c0 ->
  intervalRef c = intervalRef c0 -> timers c = timers c0 ->
  effectDeps c = effectDeps c0 ->
  completedPomodoros c = completedPomodoros c0 ->
  0 <= timeLeft c <= TIMER_DURATIONS (mode c) ->
  Inv (settle c).
Proof.
  intros [D0 T0 B0 S0 C0] HR HT HD HC HB.
  assert (K : timersOk c0 -> refOk c).
  { intros K. apply timersOk_refOk in K. unfold refOk in *.
    rewrite HR, HT. exact K. }
  apply settle_Inv; auto.
  - rewrite HD, D0. discriminate.
  - rewrite HD, D0. intros E.
    assert (isRunning c = isRunning c0 /\ timeLeft c = timeLeft c0) as [E1 E2]
      by (unfold depsOf in E; injection E; auto).
    unfold timersOk in *. rewrite HR, HT, E1, E2. auto.
  - lia.
Qed.

Lemma TIMER_DURATIONS_pos m : 0 < TIMER_DURATIONS m.
Proof. destruct m; reflexivity. Qed.

Lemma mount_settle : mount = Some (settle initialApp).
Proof. apply render_settle. Qed.

Lemma mount_Inv c : mount = Some c -> Inv c.
Proof.
  rewrite mount_settle. intros [= <-]. apply settle_Inv; simpl.
  - left. reflexivity.
  - reflexivity.
  - discriminate.
  - lia.
  - lia.
Qed.

Lemma handleModeChange_Inv m c c' :
  Inv c -> handleModeChange m c = Some c' -> Inv c'.
Proof.
  intros I. unfold handleModeChange. rewrite render_settle. intros [= <-].
  apply (settle_Inv_from c); auto; simpl.
  pose proof (TIMER_DURATIONS_pos m). lia.
Qed.

Lemma toggleTimer_Inv c c' : Inv c -> toggleTimer c = Some c' -> Inv c'.
Proof.
  intros I. unfold toggleTimer. rewrite render_settle. intros [= <-].
  apply (settle_Inv_from c); auto; simpl. apply I.
Qed.

Lemma resetTimer_Inv c c' : Inv c -> resetTimer c = Some c' -> Inv c'.
Proof.
  intros I. unfold resetTimer. rewrite render_settle. intros [= <-].
  apply (settle_Inv_from c); auto; simpl.
  pose proof (TIMER_DURATIONS_pos (mode c)). lia.
Qed.

(** A second without a live interval changes nothing; with the one live
    interval it is one decrement followed by a render. *)
Lemma tick_idle c : timers c = ∅ -> tick c = Some c.
Proof. unfold tick. intros ->. rewrite elements_empty. reflexivity. Qed.

Lemma tick_live c id :
  timers c = {[ id ]} -> tick c = Some (settle (setTimeLeft (timeLeft c - 1) c)).
Proof.
  unfold tick. intros E. rewrite E, elements_singleton. simpl.
  unfold fire. rewrite decide_True
    by (rewrite E; apply elem_of_singleton_2; reflexivity).
  apply render_settle.
Qed.

Lemma Inv_live c :
  Inv c -> isRunning c = true -> 0 < timeLeft c ->
  exists id, intervalRef c = Some id /\ timers c = {[ id ]}.
Proof.
  intros I R T. pose proof (inv_timers c I) as K. unfold timersOk in K.
  rewrite R in K. destruct (Z.ltb_spec 0 (timeLeft c)); [exact K | lia].
Qed.

Lemma Inv_idle c :
  Inv c -> isRunning c = false \/ timeLeft c = 0 -> timers c = ∅.
Proof.
  intros I H. pose proof (inv_timers c I) as K. unfold timersOk in K.
  destruct H as [R | T].
  - rewrite R in K. exact K.
  - rewrite T, andb_false_r in K. exact K.
Qed.

Lemma Inv_cases c :
  Inv c ->
  (isRunning c = true /\ 0 < timeLeft c) \/
  (timers c = ∅ /\ (isRunning c = false \/ timeLeft c = 0)).
Proof.
  intros I. destruct (isRunning c) eqn:R.
  - destruct (Z.eq_dec (timeLeft c) 0) as [T|T].
    + right. split; [apply Inv_idle|]; auto.
    + left. pose proof (inv_time c I). split; [reflexivity | lia].
  - right. split; [apply Inv_idle|]; auto.
Qed.

Lemma tick_Inv c c' : Inv c -> tick c = Some c' -> Inv c'.
Proof.
  intros I. destruct (Inv_cases c I) as [[R T] | [E _]].
  - destruct (Inv_live c I R T) as (id & _ & E).
    rewrite (tick_live c id E). intros [= <-].
    apply (settle_Inv_from c); auto; simpl.
    pose proof (inv_time c I). lia.
  - rewrite (tick_idle c E). intros [= <-]. exact I.
Qed.

Lemma step_Inv e c c' : Inv c -> step e c = Some c' -> Inv c'.
Proof.
  destruct e; simpl;
    eauto using handleModeChange_Inv, toggleTimer_Inv, resetTimer_Inv, tick_Inv.
Qed.

Lemma reachable_Inv c : reachable c -> Inv c.
Proof.
  induction 1 as [c H | e c c' _ IH H].
  - apply mount_Inv, H.
  - eapply step_Inv; eassumption.
Qed.

Lemma steps_reachable es : forall c c',
  reachable c -> steps es c = Some c' -> reachable c'.
Proof.
  induction es as [|e es IH]; simpl; intros c c' R H.
  - injection H as <-. exact R.
  - destruct (step e c) as [c1|] eqn:E; simpl in H; [|discriminate].
    apply (IH c1); [|exact H]. exact (reachable_step e c c1 R E).
Qed.

Lemma run_reachable es c : run es = Some c -> reachable c.
Proof.
  unfold run. destruct mount as [c0|] eqn:M; simpl; [|discriminate].
  apply steps_reachable, reachable_mount, M.
Qed.

(** ** Every event is defined and never lowers the counter *)

Lemma fire_counter id c :
  exists c', fire id c = Some c' /\
             completedPomodoros c <= completedPomodoros c'.
Proof.
  unfold fire. case_decide.
  - rewrite render_settle. eexists; split; [reflexivity|].
    pose proof (settle_counter_mono (setTimeLeft (timeLeft c - 1) c)) as K.
    exact K.
  - exists c. split; [reflexivity | lia].
Qed.

Lemma fires_counter ids : forall c,
  exists c', foldl (fun r id => r ≫= fire id) (Some c) ids = Some c' /\
             completedPomodoros c <= completedPomodoros c'.
Proof.
  induction ids as [|id ids IH]; simpl; intros c.
  - exists c. split; [reflexivity | lia].
  - destruct (fire_counter id c) as (c1 & -> & L1).
    destruct (IH c1) as (c2 & -> & L2).
    exists c2. split; [reflexivity | lia].
Qed.

Lemma step_counter e c :
  exists c', step e c = Some c' /\
             completedPomodoros c <= completedPomodoros c'.
Proof.
  destruct e; simpl; [| | |apply fires_counter];
    unfold handleModeChange, toggleTimer, resetTimer; rewrite render_settle;
    (eexists; split; [reflexivity|]);
    match goal with
    | |- _ <= completedPomodoros (settle ?x) => exact (settle_counter_mono x)
    end.
Qed.

Lemma steps_counter es : forall c,
  exists c', steps es c = Some c' /\
             completedPomodoros c <= completedPomodoros c'.
Proof.
  induction es as [|e es IH]; simpl; intros c.
  - exists c. split; [reflexivity | lia].
  - destruct (step_counter e c) as (c1 & -> & L1).
    destruct (IH c1) as (c2 & E2 & L2).
    exists c2. split; [exact E2 | lia].
Qed.

(** ** Counting down *)

(** One second of a running timer. *)
Lemma tick_running c :
  Inv c -> isRunning c = true -> 0 < timeLeft c ->
  exists c', tick c = Some c' /\ Inv c' /\
    mode c' = mode c /\ timeLeft c' = timeLeft c - 1 /\
    isRunning c' = negb (timeLeft c =? 1) /\
    completedPomodoros c' =
      completedPomodoros c +
      (if timeLeft c =? 1 then 2 * focusBonus (mode c) else 0).
Proof.
  intros I R T. destruct (Inv_live c I R T) as (id & _ & E).
  pose proof (tick_live c id E) as K.
  assert (I' : Inv (settle (setTimeLeft (timeLeft c - 1) c))).
  { eapply tick_Inv; eassumption. }
  set (c1 := setTimeLeft (timeLeft c - 1) c) in *.
  assert (D : effectDeps c1 <> Some (depsOf c1)).
  { unfold c1, depsOf; simpl. rewrite (inv_deps c I). unfold depsOf.
    intros [= H]. lia. }
  exists (settle c1). split; [exact K|]. split; [exact I'|].
  rewrite settle_mode, settle_timeLeft, settle_isRunning, settle_counter by exact D.
  rewrite decide_False by exact D. unfold c1 at 1 2 3 4 5; simpl. rewrite R.
  repeat apply conj; try reflexivity.
  - destruct (Z.eqb_spec (timeLeft c - 1) 0), (Z.eqb_spec (timeLeft c) 1);
      try lia; reflexivity.
  - unfold expired, bonus, focusBonus, c1; simpl.
    destruct (Z.eqb_spec (timeLeft c - 1) 0), (Z.eqb_spec (timeLeft c) 1);
      try lia; case_decide; try reflexivity; tauto.
Qed.

(** A running timer with [n] seconds left stops after exactly [n] ticks;
    the effect then ran twice at zero. *)
Lemma ticks_running n : forall c,
  Inv c -> isRunning c = true -> timeLeft c = Z.of_nat (S n) ->
  exists c', ticks (S n) c = Some c' /\ Inv c' /\
    mode c' = mode c /\ timeLeft c' = 0 /\ isRunning c' = false /\
    completedPomodoros c' = completedPomodoros c + 2 * focusBonus (mode c).
Proof.
  induction n as [|n IH]; intros c I R T.
  - destruct (tick_running c I R) as (c1 & K & I1 & M1 & T1 & R1 & C1); [lia|].
    exists c1. simpl. rewrite K. simpl.
    rewrite T in *. simpl in *.
    repeat apply conj; auto.
  - destruct (tick_running c I R) as (c1 & K & I1 & M1 & T1 & R1 & C1); [lia|].
    destruct (Z.eqb_spec (timeLeft c) 1) as [X|X]; [lia|].
    destruct (IH c1 I1 R1) as (c2 & K2 & I2 & M2 & T2 & R2 & C2); [lia|].
    exists c2. change (ticks (S (S n)) c) with (tick c ≫= ticks (S n)).
    rewrite K. simpl. rewrite M1 in *.
    repeat apply conj; auto; try congruence. lia.
Qed.

(** * The claims *)

(** C1 (the program departs from the claim).  Scenario A on the program:
    from the mounted component, one [toggleTimer] and 1500 seconds leave
    [timeLeft = 0] and [isRunning = false], but [completedPomodoros = 2]:
    the effect runs at zero, stops the timer and counts, and the change of
    [isRunning] makes it run once more, where it counts again. *)
Theorem scenarioA_counts_the_session_twice :
  snapshot <$> scenarioA = Some (focus, 0, false, 2).
Proof. vm_compute. reflexivity. Qed.

(** Every Focus interval that runs down to zero is counted twice. *)
Lemma focus_interval_counted_twice n c :
  reachable c -> mode c = focus -> isRunning c = true ->
  timeLeft c = Z.of_nat (S n) ->
  exists c', ticks (S n) c = Some c' /\ timeLeft c' = 0 /\
             isRunning c' = false /\
             completedPomodoros c' = completedPomodoros c + 2.
Proof.
  intros R M Ru T.
  destruct (ticks_running n c (reachable_Inv c R) Ru T)
    as (c' & K & _ & _ & T' & R' & C').
  exists c'. rewrite M in C'. simpl in C'. auto.
Qed.

(** C2.  In every state the component can be in between two events,
    [0 <= timeLeft <= TIMER_DURATIONS[mode]], every operation is defined
    there and leads to a state with the same bounds, and the durations are
    1500, 300 and 900 seconds. *)
Theorem remaining_time_within_duration c :
  reachable c ->
  0 <= timeLeft c <= TIMER_DURATIONS (mode c) /\
  (forall e, exists c', step e c = Some c' /\
                        0 <= timeLeft c' <= TIMER_DURATIONS (mode c')) /\
  TIMER_DURATIONS focus = 1500 /\ TIMER_DURATIONS shortBreak = 300 /\
  TIMER_DURATIONS longBreak = 900.
Proof.
  intros R. pose proof (reachable_Inv c R) as I.
  split; [apply I|]. split; [|repeat apply conj; reflexivity].
  intros e. destruct (step_counter e c) as (c' & E & _).
  exists c'. split; [exact E|]. apply (step_Inv e c c' I E).
Qed.

Lemma remaining_time_within_duration_witness :
  reachable runningFocus /\
  0 <= timeLeft runningFocus <= TIMER_DURATIONS (mode runningFocus).
Proof.
  split.
  - apply (run_reachable [ToggleRunning]). vm_compute. reflexivity.
  - apply (remaining_time_within_duration runningFocus).
    apply (run_reachable [ToggleRunning]). vm_compute. reflexivity.
Defined.

(** C3.  From any state, any sequence of operations is defined and ends
    in a state whose [completedPomodoros] is at least what it was. *)
Theorem completed_sessions_never_decrease (es : list Event) (c : App) :
  exists c', steps es c = Some c' /\
             completedPomodoros c <= completedPomodoros c'.
Proof. apply steps_counter. Qed.

(** C4.  [handleModeChange(m)], from any state, ends with [mode = m],
    [timeLeft = TIMER_DURATIONS[m]], [isRunning = false] and the counter it
    started with; from the running Focus state, Long Break gives 900
    seconds, stopped, counter unchanged. *)
Theorem select_mode_resets (m : TimerMode) (c : App) :
  (exists c', handleModeChange m c = Some c' /\
     mode c' = m /\ timeLeft c' = TIMER_DURATIONS m /\
     isRunning c' = false /\
     completedPomodoros c' = completedPomodoros c) /\
  snapshot <$> handleModeChange longBreak runningFocus =
    Some (longBreak, 900, false, completedPomodoros runningFocus).
Proof.
  split; [|vm_compute; reflexivity].
  unfold handleModeChange. rewrite render_settle.
  set (c1 := setIsRunning false (setTimeLeft (TIMER_DURATIONS m) (setMode m c))).
  exists (settle c1). split; [reflexivity|].
  rewrite settle_mode, settle_timeLeft, settle_counter.
  pose proof (TIMER_DURATIONS_pos m) as P.
  repeat apply conj; try reflexivity.
  - destruct (decide (effectDeps c1 = Some (depsOf c1))) as [E|E].
    + unfold settle. rewrite decide_True by exact E. reflexivity.
    + rewrite settle_isRunning by exact E. reflexivity.
  - assert (B : bonus c1 = 0).
    { unfold bonus, c1; simpl.
      destruct (Z.eqb_spec (TIMER_DURATIONS m) 0); [lia | reflexivity]. }
    assert (X : ~ expired c1) by (intros [_ X]; discriminate X).
    rewrite B. repeat case_decide; try tauto; unfold c1; simpl; lia.
Qed.

(** ** Helpers for the remaining claims *)

Lemma settle_stable c : effectDeps c = Some (depsOf c) -> settle c = c.
Proof. intros E. unfold settle. rewrite decide_True by exact E. reflexivity. Qed.

Lemma settle_idle c : isRunning c = false -> isRunning (settle c) = false.
Proof.
  intros R. destruct (decide (effectDeps c = Some (depsOf c))) as [E|E].
  - rewrite settle_stable by exact E. exact R.
  - rewrite settle_isRunning by exact E. rewrite R. reflexivity.
Qed.

Lemma set_same c :
  setIsRunning (isRunning c) (setTimeLeft (timeLeft c) c) = c.
Proof. destruct c; reflexivity. Qed.

Lemma settle_counter_changed c :
  completedPomodoros (settle c) <> completedPomodoros c ->
  mode (settle c) = focus /\ timeLeft (settle c) = 0.
Proof.
  rewrite settle_counter, settle_mode, settle_timeLeft. intros H.
  assert (B : bonus c <> 0) by (repeat case_decide; lia).
  unfold bonus in B. destruct (Z.eqb_spec (timeLeft c) 0); [|lia].
  destruct (mode c); try lia. auto.
Qed.

Lemma timersOk_size c : timersOk c -> (size (timers c) <= 1)%nat.
Proof.
  intros K. apply timersOk_refOk in K. destruct K as [-> | (id & _ & ->)].
  - rewrite size_empty. lia.
  - rewrite size_singleton. lia.
Qed.

Lemma effect_creates c :
  timers (effect c) <> timers c ->
  isRunning c = true /\ 0 < timeLeft c /\
  timers (effect c) = {[ nextTimerId c ]} ∪ timers c.
Proof.
  destruct c as [m t r n ref ts nx d]; unfold effect; simpl.
  destruct r, (Z.ltb_spec 0 t) as [L|L]; simpl; auto;
    destruct (Z.eqb_spec t 0); try destruct m; simpl; congruence.
Qed.

(** C5.  Between two events at most one interval is live, and only while
    the timer runs with time left; an event that leaves the timer stopped
    or changes the mode leaves no interval live, and neither does tearing
    the component down.  Inside a commit the cleanup clears the live
    interval before the effect body runs, and the body creates an interval
    only under its guard [isRunning && timeLeft > 0], so no commit ever has
    two. *)
Theorem at_most_one_live_interval c :
  reachable c ->
  (size (timers c) <= 1)%nat /\
  (timers c <> ∅ -> isRunning c = true /\ 0 < timeLeft c) /\
  (forall e c', step e c = Some c' ->
     isRunning c' = false \/ mode c' <> mode c -> timers c' = ∅) /\
  timers (unmount c) = ∅ /\
  (forall c1, intervalRef c1 = intervalRef c -> timers c1 = timers c ->
     effectDeps c1 = effectDeps c ->
     timers (cleaned c1) = ∅ /\
     (size (timers (runEffect c1)) <= 1)%nat /\
     (size (timers (runEffect (runEffect c1))) <= 1)%nat) /\
  (forall c0, timers (effect c0) <> timers c0 ->
     isRunning c0 = true /\ 0 < timeLeft c0 /\
     timers (effect c0) = {[ nextTimerId c0 ]} ∪ timers c0).
Proof.
  intros R. pose proof (reachable_Inv c R) as I.
  pose proof (timersOk_refOk c (inv_timers c I)) as RO.
  assert (ND : effectDeps c = None -> timers c = ∅).
  { rewrite (inv_deps c I). discriminate. }
  split; [apply timersOk_size, I|].
  split.
  { intros NE. destruct (Inv_cases c I) as [[? ?] | [E _]]; [auto | contradiction]. }
  split.
  { intros e c' E H. pose proof (step_Inv e c c' I E) as I'.
    destruct H as [H | H]; [apply Inv_idle; auto|].
    destruct e; simpl in E.
    - apply Inv_idle; [exact I'|]. left.
      unfold handleModeChange in E. rewrite render_settle in E.
      injection E as <-. apply settle_idle. reflexivity.
    - unfold toggleTimer in E. rewrite render_settle in E. injection E as <-.
      rewrite settle_mode in H. contradiction.
    - unfold resetTimer in E. rewrite render_settle in E. injection E as <-.
      rewrite settle_mode in H. contradiction.
    - destruct (Inv_cases c I) as [[Ru T] | [Em _]].
      + destruct (tick_running c I Ru T) as (c2 & E2 & _ & M2 & _).
        rewrite E2 in E. injection E as <-. contradiction.
      + rewrite (tick_idle c Em) in E. injection E as <-. contradiction. }
  split.
  { unfold unmount. simpl. apply cleaned_timers; assumption. }
  split; [|apply effect_creates].
  intros c1 E1 E2 E3.
  assert (RO1 : refOk c1) by (unfold refOk; rewrite E1, E2; exact RO).
  assert (ND1 : effectDeps c1 = None -> timers c1 = ∅) by (rewrite E2, E3; exact ND).
  pose proof (runEffect_timersOk c1 RO1 ND1) as K1.
  split; [apply cleaned_timers; assumption|].
  split; [apply timersOk_size, K1|].
  apply timersOk_size, runEffect_timersOk; [apply timersOk_refOk, K1|].
  rewrite runEffect_deps. discriminate.
Qed.

Lemma at_most_one_live_interval_witness :
  reachable runningFocus /\
  (size (timers runningFocus) <= 1)%nat /\
  timers (unmount runningFocus) = ∅.
Proof.
  assert (R : reachable runningFocus).
  { apply (run_reachable [ToggleRunning]). vm_compute. reflexivity. }
  split; [exact R|].
  pose proof (at_most_one_live_interval runningFocus R) as (H1 & _ & _ & H4 & _).
  split; [exact H1 | exact H4].
Defined.

(** C6.  [resetTimer()], from any state, ends with
    [timeLeft = TIMER_DURATIONS[mode]] of the unchanged mode and
    [isRunning = false]; a second [resetTimer()] changes nothing. *)
Theorem reset_restores_and_is_idempotent (c : App) :
  exists c', resetTimer c = Some c' /\
    mode c' = mode c /\ timeLeft c' = TIMER_DURATIONS (mode c) /\
    isRunning c' = false /\
    resetTimer c' = Some c' /\
    resetTimer c ≫= resetTimer = resetTimer c.
Proof.
  set (c1 := setIsRunning false (setTimeLeft (TIMER_DURATIONS (mode c)) c)).
  assert (E : resetTimer c = Some (settle c1)) by apply render_settle.
  assert (M : mode (settle c1) = mode c) by exact (settle_mode c1).
  assert (T : timeLeft (settle c1) = TIMER_DURATIONS (mode c))
    by exact (settle_timeLeft c1).
  assert (Ru : isRunning (settle c1) = false) by (apply settle_idle; reflexivity).
  assert (Again : resetTimer (settle c1) = Some (settle c1)).
  { unfold resetTimer. rewrite M, <- T, <- Ru, set_same, render_settle.
    f_equal. apply settle_stable, settle_deps. }
  exists (settle c1). rewrite E. simpl. repeat apply conj; auto.
Qed.

Lemma step_counter_changed e c c' :
  Inv c -> step e c = Some c' ->
  completedPomodoros c' <> completedPomodoros c ->
  mode c' = focus /\ timeLeft c' = 0.
Proof.
  intros I E H. destruct e; simpl in E.
  - unfold handleModeChange in E. rewrite render_settle in E.
    injection E as <-. apply settle_counter_changed. exact H.
  - unfold toggleTimer in E. rewrite render_settle in E.
    injection E as <-. apply settle_counter_changed. exact H.
  - unfold resetTimer in E. rewrite render_settle in E.
    injection E as <-. apply settle_counter_changed. exact H.
  - destruct (Inv_cases c I) as [[Ru T] | [Em _]].
    + destruct (Inv_live c I Ru T) as (id & _ & L).
      rewrite (tick_live c id L) in E. injection E as <-.
      apply settle_counter_changed. exact H.
    + rewrite (tick_idle c Em) in E. injection E as <-. contradiction.
Qed.

(** C7.  A Short Break that runs its 300 seconds down to zero stops with
    the counter it started with; and whenever an operation does change the
    counter, it ends in Focus mode with no time left. *)
Theorem short_break_keeps_counter c :
  reachable c ->
  (mode c = shortBreak -> timeLeft c = 300 -> isRunning c = true ->
   exists c', ticks 300 c = Some c' /\ mode c' = shortBreak /\
              timeLeft c' = 0 /\ isRunning c' = false /\
              completedPomodoros c' = completedPomodoros c) /\
  (forall e c', step e c = Some c' ->
     completedPomodoros c' <> completedPomodoros c ->
     mode c' = focus /\ timeLeft c' = 0).
Proof.
  intros R. pose proof (reachable_Inv c R) as I. split.
  - intros M T Ru.
    destruct (ticks_running 299 c I Ru) as (c' & K & _ & M' & T' & R' & C').
    { rewrite T. reflexivity. }
    exists c'. rewrite M in *. simpl in C'.
    repeat apply conj; auto. lia.
  - intros e c'. apply step_counter_changed, I.
Qed.

Lemma short_break_keeps_counter_witness :
  reachable runningShortBreak /\
  exists c', ticks 300 runningShortBreak = Some c' /\ mode c' = shortBreak /\
             timeLeft c' = 0 /\ isRunning c' = false /\
             completedPomodoros c' = completedPomodoros runningShortBreak.
Proof.
  assert (R : reachable runningShortBreak).
  { apply (run_reachable [SelectMode shortBreak; ToggleRunning]).
    vm_compute. reflexivity. }
  split; [exact R|].
  apply (short_break_keeps_counter runningShortBreak R); reflexivity.
Defined.

(** C10 (the program departs from the claim).  [toggleTimer()] with no
    time left: the timer is stopped again without a countdown and without
    an interval, but in Focus mode the counter goes up by 2, not by 1: the
    effect counts when it sees the running timer at zero, and once more
    when the change of [isRunning] makes it run again. *)
Theorem toggle_at_zero_counts_twice c :
  reachable c -> timeLeft c = 0 ->
  exists c', toggleTimer c = Some c' /\
    mode c' = mode c /\ timeLeft c' = 0 /\ isRunning c' = false /\
    timers c' = ∅ /\
    completedPomodoros c' =
      completedPomodoros c + 2 * focusBonus (mode c).
Proof.
  intros R T. pose proof (reachable_Inv c R) as I.
  pose proof (inv_stopped c I T) as Ru.
  unfold toggleTimer. rewrite render_settle, Ru. simpl.
  set (c1 := setIsRunning true c).
  assert (I1 : Inv (settle c1)).
  { apply (toggleTimer_Inv c); [exact I|].
    unfold toggleTimer. rewrite render_settle, Ru. reflexivity. }
  assert (D : effectDeps c1 <> Some (depsOf c1)).
  { unfold c1, depsOf; simpl. rewrite (inv_deps c I). unfold depsOf.
    rewrite Ru. intros [= ]. }
  assert (X : expired c1) by (split; [exact T | reflexivity]).
  assert (T1 : timeLeft (settle c1) = 0) by (rewrite settle_timeLeft; exact T).
  exists (settle c1). split; [reflexivity|].
  repeat apply conj.
  - exact (settle_mode c1).
  - exact T1.
  - apply (inv_stopped _ I1 T1).
  - apply Inv_idle; auto.
  - rewrite settle_counter, decide_False, decide_True by assumption.
    unfold bonus, focusBonus, c1; simpl. rewrite T. reflexivity.
Qed.

Lemma toggle_at_zero_counts_twice_witness :
  reachable finishedFocus /\ timeLeft finishedFocus = 0 /\
  exists c', toggleTimer finishedFocus = Some c' /\
    mode c' = focus /\ timeLeft c' = 0 /\ isRunning c' = false /\
    timers c' = ∅ /\
    completedPomodoros c' = completedPomodoros finishedFocus + 2.
Proof.
  assert (R : reachable finishedFocus).
  { apply (run_reachable (ToggleRunning :: repeat Tick 1500)).
    vm_compute. reflexivity. }
  split; [exact R|]. split; [reflexivity|].
  apply (toggle_at_zero_counts_twice finishedFocus R). reflexivity.
Defined.

(** ** Checking a finite range by computation *)

Lemma check_spec n P :
  check n P = true -> forall z, 0 <= z <= Z.of_nat n -> P z = true.
Proof.
  induction n as [|n IH]; simpl check; intros H z Hz.
  - assert (z = 0) as -> by lia. exact H.
  - apply andb_prop in H. destruct H as [H1 H2].
    destruct (Z.eq_dec z (Z.of_nat (S n))) as [-> | N]; [exact H1|].
    apply IH; [exact H2 | lia].
Qed.

Lemma progressOk_all m : check (Z.to_nat (TIMER_DURATIONS m)) (progressOk m) = true.
Proof. destruct m; vm_compute; reflexivity. Qed.

(** C8.  While [0 <= timeLeft <= TIMER_DURATIONS[mode]]: [totalTime] is
    the duration of the mode and strictly positive, [progress] is
    [1 - timeLeft / totalTime] computed in binary64, it lies between 0 and
    1, so does the exact quotient, and the two differ by at most 2^-53. *)
Theorem progress_in_unit_interval c :
  0 <= timeLeft c <= TIMER_DURATIONS (mode c) ->
  totalTime c = TIMER_DURATIONS (mode c) /\ 0 < totalTime c /\
  progress c = (1 - number (timeLeft c) / number (totalTime c))%float /\
  (0 <=? progress c)%float = true /\ (progress c <=? 1)%float = true /\
  (0 <= progressExact c <= 1)%Q /\
  (Qabs (floatQ (progress c) - progressExact c) <= Qpower 2 (-53))%Q.
Proof.
  intros H. split; [reflexivity|]. split; [apply TIMER_DURATIONS_pos|].
  split; [reflexivity|].
  assert (K : progressOk (mode c) (timeLeft c) = true).
  { apply (check_spec _ _ (progressOk_all (mode c))).
    pose proof (TIMER_DURATIONS_pos (mode c)). lia. }
  unfold progressOk in K.
  change (progress (setTimeLeft (timeLeft c) (setMode (mode c) initialApp)))
    with (progress c) in K.
  change (progressExact (setTimeLeft (timeLeft c) (setMode (mode c) initialApp)))
    with (progressExact c) in K.
  repeat (apply andb_prop in K; destruct K as [K ?]).
  repeat match goal with
         | H : Qle_bool _ _ = true |- _ => apply Qle_bool_iff in H
         end.
  repeat apply conj; assumption.
Qed.

Lemma progress_in_unit_interval_witness :
  0 <= timeLeft runningShortBreak <= TIMER_DURATIONS (mode runningShortBreak) /\
  (0 <=? progress runningShortBreak)%float = true /\
  (progress runningShortBreak <=? 1)%float = true.
Proof.
  assert (H : 0 <= timeLeft runningShortBreak
              <= TIMER_DURATIONS (mode runningShortBreak)) by (simpl; lia).
  split; [exact H|].
  pose proof (progress_in_unit_interval runningShortBreak H)
    as (_ & _ & _ & H1 & H2 & _).
  split; [exact H1 | exact H2].
Defined.

(** ** [formatTime] on the clock range *)

Lemma formatTime_MMSS_all :
  check (Z.to_nat 5999) (fun s => String.eqb (formatTime s) (MMSS s)) = true.
Proof. vm_compute. reflexivity. Qed.

Lemma formatTime_MMSS s : 0 <= s < 6000 -> formatTime s = MMSS s.
Proof.
  intros H. apply String.eqb_eq.
  apply (check_spec _ _ formatTime_MMSS_all). lia.
Qed.

(** C9.  For [0 <= seconds <= TIMER_DURATIONS[mode]], [formatTime] gives
    five characters: the two digits of [seconds div 60], a colon, the two
    digits of [seconds mod 60]; 65 gives "01:05" and 0 gives "00:00". *)
Theorem formatTime_is_MMSS (m : TimerMode) (seconds : Z) :
  0 <= seconds <= TIMER_DURATIONS m ->
  formatTime seconds = MMSS seconds /\
  String.length (formatTime seconds) = 5%nat /\
  formatTime 65 = "01:05"%string /\ formatTime 0 = "00:00"%string.
Proof.
  intros H.
  assert (E : formatTime seconds = MMSS seconds).
  { apply formatTime_MMSS. destruct m; simpl in H; lia. }
  rewrite E. repeat apply conj; reflexivity.
Qed.

Lemma formatTime_is_MMSS_witness :
  0 <= 754 <= TIMER_DURATIONS longBreak /\ formatTime 754 = "12:34"%string.
Proof.
  assert (H : 0 <= 754 <= TIMER_DURATIONS longBreak) by (simpl; lia).
  split; [exact H|].
  pose proof (formatTime_is_MMSS longBreak 754 H) as (E & _).
  rewrite E. reflexivity.
Defined.

(** * Further properties of the component *)

(** ** The render loop *)

Lemma settle_counter_idle c :
  timeLeft c <> 0 -> completedPomodoros (settle c) = completedPomodoros c.
Proof.
  intros T. rewrite settle_counter.
  assert (B : bonus c = 0).
  { unfold bonus. destruct (Z.eqb_spec (timeLeft c) 0); [contradiction | reflexivity]. }
  rewrite B. repeat case_decide; lia.
Qed.

Lemma settle_isRunning_le c : isRunning (settle c) = true -> isRunning c = true.
Proof.
  destruct (isRunning c) eqn:R; [reflexivity|].
  rewrite (settle_idle c R). discriminate.
Qed.

(** X1.  From any state the render loop comes to rest after at most two
    runs of the effect, far below React's limit; it never changes [mode] or
    [timeLeft], never starts the timer, and rendering the state it ends in
    changes nothing. *)
Theorem render_settles (c : App) :
  (forall k, commit (2 + k) c = Some (settle c)) /\
  exists c', render c = Some c' /\
    mode c' = mode c /\ timeLeft c' = timeLeft c /\
    (isRunning c' = true -> isRunning c = true) /\
    render c' = Some c'.
Proof.
  split; [intros k; apply commit_settle|].
  exists (settle c). rewrite render_settle.
  repeat apply conj.
  - reflexivity.
  - apply settle_mode.
  - apply settle_timeLeft.
  - apply settle_isRunning_le.
  - rewrite render_settle. f_equal. apply settle_stable, settle_deps.
Qed.

(** ** Running, paused, counting down *)

(** X2.  Between two events the button reads "Pause" exactly when an
    interval is live; a running timer has time left and exactly one live
    interval, the one [intervalRef] names, and a timer at zero is
    stopped. *)
Theorem pause_button_iff_interval_live c :
  reachable c ->
  (toggleLabel c = "Pause"%string <-> timers c <> ∅) /\
  (isRunning c = true ->
   0 < timeLeft c /\
   exists id, intervalRef c = Some id /\ timers c = {[ id ]}) /\
  (timeLeft c = 0 -> toggleLabel c = "Start"%string).
Proof.
  intros R. pose proof (reachable_Inv c R) as I.
  assert (L : isRunning c = true ->
              0 < timeLeft c /\
              exists id, intervalRef c = Some id /\ timers c = {[ id ]}).
  { intros Ru. destruct (Inv_cases c I) as [[_ T] | [_ [F | Z0]]].
    - split; [exact T | apply Inv_live; assumption].
    - congruence.
    - rewrite (inv_stopped c I Z0) in Ru. discriminate. }
  unfold toggleLabel. repeat apply conj.
  - destruct (isRunning c) eqn:Ru; [|discriminate].
    intros _. destruct (L eq_refl) as (_ & id & _ & E). rewrite E.
    intros H. apply (f_equal (fun X => size X)) in H.
    rewrite size_singleton, size_empty in H. discriminate.
  - intros NE. destruct (isRunning c) eqn:Ru; [reflexivity|].
    exfalso. apply NE, Inv_idle; auto.
  - exact L.
  - intros Z0. rewrite (inv_stopped c I Z0). reflexivity.
Qed.

Lemma pause_button_iff_interval_live_witness :
  reachable runningFocus /\ timers runningFocus <> ∅.
Proof.
  assert (R : reachable runningFocus).
  { apply (run_reachable [ToggleRunning]). vm_compute. reflexivity. }
  split; [exact R|].
  apply (pause_button_iff_interval_live runningFocus R). reflexivity.
Defined.

Lemma ticks_idle n : forall c, timers c = ∅ -> ticks n c = Some c.
Proof.
  induction n as [|n IH]; intros c E; simpl; [reflexivity|].
  rewrite (tick_idle c E). simpl. apply IH, E.
Qed.

(** X3.  A paused timer is frozen: however many seconds pass, nothing in
    the component changes. *)
Theorem paused_timer_is_frozen (n : nat) c :
  reachable c -> isRunning c = false -> ticks n c = Some c.
Proof.
  intros R Ru. apply ticks_idle, Inv_idle; [apply reachable_Inv, R | auto].
Qed.

Lemma paused_timer_is_frozen_witness :
  reachable finishedFocus /\ isRunning finishedFocus = false /\
  ticks 60 finishedFocus = Some finishedFocus.
Proof.
  assert (R : reachable finishedFocus).
  { apply (run_reachable (ToggleRunning :: repeat Tick 1500)).
    vm_compute. reflexivity. }
  split; [exact R|]. split; [reflexivity|].
  apply (paused_timer_is_frozen 60 finishedFocus R). reflexivity.
Defined.

Lemma ticks_app a : forall b c, ticks (a + b) c = ticks a c ≫= ticks b.
Proof.
  induction a as [|a IH]; intros b c; simpl; [reflexivity|].
  destruct (tick c) as [c1|]; simpl; [apply IH | reflexivity].
Qed.

(** While the timer has more than [k] seconds left, [k] ticks take exactly
    [k] seconds off and leave everything else alone. *)
Lemma ticks_partial k : forall c,
  Inv c -> isRunning c = true -> Z.of_nat k < timeLeft c ->
  exists c', ticks k c = Some c' /\ Inv c' /\
    mode c' = mode c /\ timeLeft c' = timeLeft c - Z.of_nat k /\
    isRunning c' = true /\
    completedPomodoros c' = completedPomodoros c.
Proof.
  induction k as [|k IH]; intros c I R T.
  - exists c. simpl. repeat apply conj; auto. lia.
  - destruct (tick_running c I R) as (c1 & K & I1 & M1 & T1 & R1 & C1); [lia|].
    destruct (Z.eqb_spec (timeLeft c) 1) as [X|X]; [lia|].
    destruct (IH c1 I1 R1) as (c2 & K2 & I2 & M2 & T2 & R2 & C2); [lia|].
    exists c2. simpl. rewrite K. simpl.
    repeat apply conj; auto; try congruence; lia.
Qed.

(** X4.  The countdown in closed form: [n] seconds after a reachable
    running state the time left is [max 0 (timeLeft - n)], the timer still
    runs exactly if [n < timeLeft], the mode is the same, and the counter
    has moved (by 2, in Focus mode only) exactly if zero was reached. *)
Theorem countdown_closed_form (n : nat) c :
  reachable c -> isRunning c = true ->
  exists c', ticks n c = Some c' /\
    mode c' = mode c /\
    timeLeft c' = Z.max 0 (timeLeft c - Z.of_nat n) /\
    isRunning c' = (Z.of_nat n <? timeLeft c) /\
    completedPomodoros c' =
      completedPomodoros c +
      (if Z.of_nat n <? timeLeft c then 0 else 2 * focusBonus (mode c)).
Proof.
  intros R Ru. pose proof (reachable_Inv c R) as I.
  assert (T : 0 < timeLeft c).
  { destruct (Inv_cases c I) as [[_ T] | [_ [F | Z0]]]; [exact T | congruence |].
    rewrite (inv_stopped c I Z0) in Ru. discriminate. }
  destruct (Z.ltb_spec (Z.of_nat n) (timeLeft c)) as [L|L].
  - destruct (ticks_partial n c I Ru L) as (c' & K & _ & M' & T' & R' & C').
    exists c'. repeat apply conj; auto; lia.
  - set (t := Z.to_nat (timeLeft c)).
    assert (Et : t = S (Nat.pred t)) by lia.
    destruct (ticks_running (Nat.pred t) c I Ru)
      as (c1 & K & I1 & M1 & T1 & R1 & C1); [lia|].
    rewrite <- Et in K.
    assert (En : n = (t + (n - t))%nat) by lia.
    exists c1. rewrite En, ticks_app, K. simpl.
    rewrite (ticks_idle _ c1) by (apply Inv_idle; auto).
    repeat apply conj; auto. lia.
Qed.

Lemma countdown_closed_form_witness :
  reachable runningShortBreak /\ isRunning runningShortBreak = true /\
  exists c', ticks 45 runningShortBreak = Some c' /\ timeLeft c' = 255.
Proof.
  assert (R : reachable runningShortBreak).
  { apply (run_reachable [SelectMode shortBreak; ToggleRunning]).
    vm_compute. reflexivity. }
  split; [exact R|]. split; [reflexivity|].
  destruct (countdown_closed_form 45 runningShortBreak R eq_refl)
    as (c' & K & _ & T & _).
  exists c'. split; [exact K | exact T].
Defined.

(** [toggleTimer()] with time left flips [isRunning] and nothing else an
    observer can see. *)
Lemma toggle_with_time c :
  Inv c -> 0 < timeLeft c ->
  exists c', toggleTimer c = Some c' /\ Inv c' /\
    mode c' = mode c /\ timeLeft c' = timeLeft c /\
    isRunning c' = negb (isRunning c) /\
    completedPomodoros c' = completedPomodoros c.
Proof.
  intros I T. set (c1 := setIsRunning (negb (isRunning c)) c).
  assert (E : toggleTimer c = Some (settle c1)) by apply render_settle.
  assert (D : effectDeps c1 <> Some (depsOf c1)).
  { unfold c1, depsOf; simpl. rewrite (inv_deps c I). unfold depsOf.
    intros [= H]. destruct (isRunning c); discriminate. }
  exists (settle c1). split; [exact E|].
  split; [apply (toggleTimer_Inv c _ I E)|].
  rewrite settle_isRunning by exact D.
  repeat apply conj.
  - exact (settle_mode c1).
  - exact (settle_timeLeft c1).
  - unfold c1; simpl.
    destruct (Z.eqb_spec (timeLeft c) 0); [lia | apply andb_true_r].
  - apply (settle_counter_idle c1). unfold c1; simpl. lia.
Qed.

(** X5.  With time left, [toggleTimer()] flips [isRunning] and keeps mode,
    time and counter; pausing leaves no interval live, starting leaves
    exactly one; and a second [toggleTimer()] before any tick brings back
    what the observer saw before the first. *)
Theorem toggle_pauses_and_resumes c :
  reachable c -> 0 < timeLeft c ->
  exists c1 c2,
    toggleTimer c = Some c1 /\ toggleTimer c1 = Some c2 /\
    snapshot c1 =
      (mode c, timeLeft c, negb (isRunning c), completedPomodoros c) /\
    size (timers c1) = (if isRunning c then 0 else 1)%nat /\
    snapshot c2 = snapshot c.
Proof.
  intros R T. pose proof (reachable_Inv c R) as I.
  destruct (toggle_with_time c I T) as (c1 & E1 & I1 & M1 & T1 & R1 & C1).
  destruct (toggle_with_time c1 I1) as (c2 & E2 & I2 & M2 & T2 & R2 & C2);
    [lia|].
  exists c1, c2. unfold snapshot. repeat apply conj; auto.
  - rewrite M1, T1, R1, C1. reflexivity.
  - destruct (isRunning c) eqn:Ru; simpl in R1.
    + rewrite (Inv_idle c1 I1) by auto. apply size_empty.
    + destruct (Inv_live c1 I1 R1) as (id & _ & ->); [lia|].
      apply size_singleton.
  - rewrite M2, T2, R2, C2, M1, T1, R1, C1, negb_involutive. reflexivity.
Qed.

Lemma toggle_pauses_and_resumes_witness :
  reachable runningFocus /\ 0 < timeLeft runningFocus /\
  exists c1 c2,
    toggleTimer runningFocus = Some c1 /\ toggleTimer c1 = Some c2 /\
    isRunning c1 = false /\ snapshot c2 = snapshot runningFocus.
Proof.
  assert (R : reachable runningFocus).
  { apply (run_reachable [ToggleRunning]). vm_compute. reflexivity. }
  assert (T : 0 < timeLeft runningFocus) by reflexivity.
  split; [exact R|]. split; [exact T|].
  destruct (toggle_pauses_and_resumes runningFocus R T)
    as (c1 & c2 & E1 & E2 & S1 & _ & S2).
  exists c1, c2. repeat apply conj; auto.
  unfold snapshot in S1. injection S1 as _ _ Ru _. exact Ru.
Defined.

(** ** The counter, event by event *)

Lemma step_counted e c c' :
  Inv c -> step e c = Some c' ->
  completedPomodoros c' = completedPomodoros c + counted e c.
Proof.
  intros I E. pose proof (TIMER_DURATIONS_pos (mode c)) as P.
  destruct e as [m| | |]; simpl in *.
  - unfold handleModeChange in E. rewrite render_settle in E.
    injection E as <-. rewrite settle_counter_idle; simpl; [lia|].
    pose proof (TIMER_DURATIONS_pos m). lia.
  - destruct (Z.eqb_spec (timeLeft c) 0) as [Z0|NZ].
    + pose proof (inv_stopped c I Z0) as Ru.
      unfold toggleTimer in E. rewrite render_settle, Ru in E.
      injection E as <-. simpl negb.
      set (c1 := setIsRunning true c).
      assert (D : effectDeps c1 <> Some (depsOf c1)).
      { unfold c1, depsOf; simpl. rewrite (inv_deps c I). unfold depsOf.
        rewrite Ru. intros [= ]. }
      assert (X : expired c1) by (split; [exact Z0 | reflexivity]).
      rewrite settle_counter, decide_False, decide_True by assumption.
      unfold bonus, focusBonus, c1; simpl. rewrite Z0. reflexivity.
    + destruct (toggle_with_time c I) as (c1 & E1 & _ & _ & _ & _ & C1).
      { pose proof (inv_time c I). lia. }
      rewrite E1 in E. injection E as <-. lia.
  - unfold resetTimer in E. rewrite render_settle in E.
    injection E as <-. rewrite settle_counter_idle; simpl; lia.
  - destruct (Inv_cases c I) as [[Ru T] | [Em F]].
    + destruct (tick_running c I Ru T) as (c1 & E1 & _ & _ & _ & _ & C1).
      rewrite E1 in E. injection E as <-. rewrite Ru. exact C1.
    + rewrite (tick_idle c Em) in E. injection E as <-.
      destruct F as [-> | Z0]; simpl; [lia|].
      rewrite Z0, andb_false_r. lia.
Qed.

Lemma mount_counter c : mount = Some c -> completedPomodoros c = 0.
Proof.
  rewrite mount_settle. intros [= <-].
  rewrite settle_counter_idle; [reflexivity | discriminate].
Qed.

Lemma counted_even e c : Z.even (counted e c) = true.
Proof.
  unfold counted.
  destruct e; try reflexivity;
    match goal with
    | |- context [if ?b then _ else _] => destruct b
    end; try reflexivity; apply Z.even_mul; reflexivity.
Qed.

Lemma reachable_even c : reachable c -> Z.even (completedPomodoros c) = true.
Proof.
  induction 1 as [c M | e c c' R IH E].
  - rewrite (mount_counter c M). reflexivity.
  - rewrite (step_counted e c c' (reachable_Inv c R) E).
    rewrite Z.even_add, IH, counted_even. reflexivity.
Qed.

(** X6.  Event by event: mode selection and reset never touch the counter;
    a tick adds to it only when it takes a running Focus timer from 1 to
    0, [toggleTimer()] only at 0 in Focus mode, and what is added is then
    2.  So the counter of the component is always even. *)
Theorem counter_moves_in_twos e c c' :
  reachable c -> step e c = Some c' ->
  completedPomodoros c' = completedPomodoros c + counted e c /\
  (counted e c = 0 \/ counted e c = 2) /\
  Z.even (completedPomodoros c') = true.
Proof.
  intros R E. repeat apply conj.
  - apply step_counted; [apply reachable_Inv, R | exact E].
  - unfold counted, focusBonus.
    destruct e; auto;
      match goal with
      | |- context [if ?b then _ else _] => destruct b
      end; auto; destruct (mode c); auto.
  - apply reachable_even. exact (reachable_step e c c' R E).
Qed.

Lemma counter_moves_in_twos_witness :
  reachable finishedFocus /\
  exists c', step ToggleRunning finishedFocus = Some c' /\
             completedPomodoros c' = 4.
Proof.
  assert (R : reachable finishedFocus).
  { apply (run_reachable (ToggleRunning :: repeat Tick 1500)).
    vm_compute. reflexivity. }
  split; [exact R|].
  destruct (step ToggleRunning finishedFocus) as [c'|] eqn:E;
    [|vm_compute in E; discriminate E].
  exists c'. split; [reflexivity|].
  apply (counter_moves_in_twos ToggleRunning finishedFocus c' R E).
Defined.

(** ** The session dots and the session count *)






(** ** Mode selection and reset *)

Lemma handleModeChange_spec m c :
  exists c', handleModeChange m c = Some c' /\
    effectDeps c' = Some (depsOf c') /\
    snapshot c' = (m, TIMER_DURATIONS m, false, completedPomodoros c).
Proof.
  set (c1 := setIsRunning false (setTimeLeft (TIMER_DURATIONS m) (setMode m c))).
  assert (E : handleModeChange m c = Some (settle c1)) by apply render_settle.
  exists (settle c1). split; [exact E|]. split; [apply settle_deps|].
  unfold snapshot.
  rewrite settle_mode, settle_timeLeft, settle_idle, settle_counter_idle;
    try reflexivity.
  unfold c1; simpl. pose proof (TIMER_DURATIONS_pos m). lia.
Qed.

Lemma resetTimer_spec c :
  exists c', resetTimer c = Some c' /\
    effectDeps c' = Some (depsOf c') /\
    snapshot c' =
      (mode c, TIMER_DURATIONS (mode c), false, completedPomodoros c).
Proof.
  set (c1 := setIsRunning false (setTimeLeft (TIMER_DURATIONS (mode c)) c)).
  assert (E : resetTimer c = Some (settle c1)) by apply render_settle.
  exists (settle c1). split; [exact E|]. split; [apply settle_deps|].
  unfold snapshot.
  rewrite settle_mode, settle_timeLeft, settle_idle, settle_counter_idle;
    try reflexivity.
  unfold c1; simpl. pose proof (TIMER_DURATIONS_pos (mode c)). lia.
Qed.

(** X9.  From any state: the last mode selected wins (an earlier
    selection or reset leaves no trace an observer can see), a reset right
    after a mode selection changes nothing at all, and a reset followed by
    a mode selection shows what the selection alone shows. *)
Theorem mode_selection_composes (m1 m2 : TimerMode) (c : App) :
  snapshot <$> (handleModeChange m1 c ≫= handleModeChange m2) =
    snapshot <$> handleModeChange m2 c /\
  handleModeChange m1 c ≫= resetTimer = handleModeChange m1 c /\
  snapshot <$> (resetTimer c ≫= handleModeChange m2) =
    snapshot <$> handleModeChange m2 c.
Proof.
  destruct (handleModeChange_spec m1 c) as (c1 & E1 & D1 & S1).
  destruct (handleModeChange_spec m2 c) as (c2 & E2 & _ & S2).
  destruct (handleModeChange_spec m2 c1) as (c3 & E3 & _ & S3).
  destruct (resetTimer_spec c) as (c4 & E4 & _ & S4).
  destruct (handleModeChange_spec m2 c4) as (c5 & E5 & _ & S5).
  unfold snapshot in S1, S4. injection S1 as M1 T1 R1 C1.
  injection S4 as M4 T4 R4 C4.
  rewrite E1, E2, E4. simpl. rewrite E3, E5. simpl.
  rewrite S2, S3, S5, C1, C4. repeat apply conj; try reflexivity.
  unfold resetTimer. rewrite M1, <- T1 at 1. rewrite <- R1 at 1.
  rewrite set_same, render_settle. f_equal. apply settle_stable, D1.
Qed.

(** X10.  The mode selector always draws exactly one button as selected,
    the one of the current mode; the three labels tell the modes apart;
    and after clicking the button of [m], from any state, the selected
    button is the one labelled [MODE_LABELS[m]]. *)
Theorem mode_selector_shows_selection (m : TimerMode) (c : App) :
  List.filter snd (modeButtons c) = [(MODE_LABELS (mode c), true)] /\
  (forall m1 m2, MODE_LABELS m1 = MODE_LABELS m2 -> m1 = m2) /\
  exists c', handleModeChange m c = Some c' /\
             List.filter snd (modeButtons c') = [(MODE_LABELS m, true)].
Proof.
  assert (F : forall c0, List.filter snd (modeButtons c0) =
                         [(MODE_LABELS (mode c0), true)]).
  { intros c0. unfold modeButtons. destruct (mode c0); reflexivity. }
  split; [apply F|]. split.
  - intros [] []; simpl; intros H; try reflexivity; discriminate H.
  - destruct (handleModeChange_spec m c) as (c' & E & _ & S).
    exists c'. split; [exact E|]. rewrite F.
    unfold snapshot in S. injection S as -> _ _ _. reflexivity.
Qed.

(** ** [formatTime] beyond the claims *)





Lemma clockValue_formatTime_all :
  check (Z.to_nat 5999) (fun s => clockValue (formatTime s) =? s) = true.
Proof. vm_compute. reflexivity. Qed.

(** X12.  On the clock range (below 100 minutes) the display can be read
    back: minutes times 60 plus seconds of [formatTime seconds] is
    [seconds], so two different remaining times never look the same. *)
Theorem formatTime_tells_times_apart (s t : Z) :
  0 <= s < 6000 -> 0 <= t < 6000 ->
  clockValue (formatTime s) = s /\
  (formatTime s = formatTime t -> s = t).
Proof.
  intros Hs Ht.
  assert (R : forall z, 0 <= z < 6000 -> clockValue (formatTime z) = z).
  { intros z Hz. apply Z.eqb_eq.
    apply (check_spec _ _ clockValue_formatTime_all). lia. }
  split; [apply R, Hs|].
  intros E. rewrite <- (R s Hs), <- (R t Ht), E. reflexivity.
Qed.

Lemma formatTime_tells_times_apart_witness :
  0 <= 1499 < 6000 /\ 0 <= 1500 < 6000 /\
  clockValue (formatTime 1499) = 1499.
Proof.
  assert (Hs : 0 <= 1499 < 6000) by lia.
  assert (Ht : 0 <= 1500 < 6000) by lia.
  split; [exact Hs|]. split; [exact Ht|].
  apply (formatTime_tells_times_apart 1499 1500 Hs Ht).
Defined.

(** ** The progress arc *)

Lemma strokeDashoffset_ext c c' :
  mode c = mode c' -> timeLeft c = timeLeft c' ->
  Svg.strokeDashoffset c = Svg.strokeDashoffset c'.
Proof.
  intros M T. unfold Svg.strokeDashoffset, progress, totalTime.
  rewrite M, T. reflexivity.
Qed.

Lemma offsetOk_all m : check (Z.to_nat (TIMER_DURATIONS m)) (offsetOk m) = true.
Proof. destruct m; vm_compute; reflexivity. Qed.

Lemma offsetOk_at c :
  0 <= timeLeft c <= TIMER_DURATIONS (mode c) ->
  offsetOk (mode c) (timeLeft c) = true.
Proof.
  intros H. apply (check_spec _ _ (offsetOk_all (mode c))).
  pose proof (TIMER_DURATIONS_pos (mode c)). lia.
Qed.

(** X13.  While [0 <= timeLeft <= TIMER_DURATIONS[mode]] the dash offset
    of the progress circle, computed in binary64, lies between 0 and the
    circumference; it is the whole circumference with the full time left
    and 0 with none; and every second that passes makes it strictly
    smaller. *)
Theorem progress_arc_advances c :
  0 <= timeLeft c <= TIMER_DURATIONS (mode c) ->
  (0 <=? Svg.strokeDashoffset c)%float = true /\
  (Svg.strokeDashoffset c <=? Svg.circumference)%float = true /\
  (timeLeft c = TIMER_DURATIONS (mode c) ->
   Svg.strokeDashoffset c = Svg.circumference) /\
  (timeLeft c = 0 -> Svg.strokeDashoffset c = 0%float) /\
  (0 < timeLeft c ->
   (Svg.strokeDashoffset (setTimeLeft (timeLeft c - 1) c) <?
    Svg.strokeDashoffset c)%float = true).
Proof.
  intros H. pose proof (offsetOk_at c H) as K. unfold offsetOk in K.
  set (c0 := setTimeLeft (timeLeft c) (setMode (mode c) initialApp)) in K.
  rewrite <- (strokeDashoffset_ext c c0) in K by reflexivity.
  apply andb_prop in K. destruct K as [K _].
  apply andb_prop in K. destruct K as [K1 K2].
  repeat apply conj; auto.
  - intros E.
    rewrite (strokeDashoffset_ext c
               (setTimeLeft (TIMER_DURATIONS (mode c)) (setMode (mode c) initialApp)))
      by (simpl; auto).
    destruct (mode c); vm_compute; reflexivity.
  - intros E.
    rewrite (strokeDashoffset_ext c (setTimeLeft 0 (setMode (mode c) initialApp)))
      by (simpl; auto).
    destruct (mode c); vm_compute; reflexivity.
  - intros P. set (c1 := setTimeLeft (timeLeft c - 1) c).
    assert (H1 : 0 <= timeLeft c1 <= TIMER_DURATIONS (mode c1))
      by (unfold c1; simpl; lia).
    pose proof (offsetOk_at c1 H1) as J. unfold offsetOk in J.
    apply andb_prop in J. destruct J as [_ J].
    apply orb_prop in J. destruct J as [J | J].
    + apply Z.eqb_eq in J. unfold c1 in J; simpl in J. lia.
    + rewrite (strokeDashoffset_ext c1
                 (setTimeLeft (timeLeft c1) (setMode (mode c1) initialApp)))
        by reflexivity.
      rewrite (strokeDashoffset_ext c
                 (setTimeLeft (timeLeft c1 + 1)
                    (setTimeLeft (timeLeft c1) (setMode (mode c1) initialApp))))
        by (unfold c1; simpl; auto; lia).
      exact J.
Qed.

Lemma progress_arc_advances_witness :
  0 <= timeLeft runningShortBreak <= TIMER_DURATIONS (mode runningShortBreak) /\
  Svg.strokeDashoffset runningShortBreak = Svg.circumference.
Proof.
  assert (H : 0 <= timeLeft runningShortBreak
              <= TIMER_DURATIONS (mode runningShortBreak)) by (simpl; lia).
  split; [exact H|].
  destruct (progress_arc_advances runningShortBreak H) as (_ & _ & F & _).
  apply F. reflexivity.
Defined.
